(** * lsinput: links to a device node, [getLinksTo] of src/tools/lsinput.cpp

    [getLinksTo target_rel dirpath] lists the symbolic links of the
    directory [dirpath] whose destination is the file [target_rel].  The
    function is a sequence of C library calls (opendir, readdir, realpath,
    lstat, readlink) and of the [ChDir] guard of utils.hpp; every failed
    call is turned into a [SystemError] exception carrying [errno].

    The embedding keeps that shape: the C library is an interface
    ([Kernel]), the process owns a working directory and an [errno]
    ([Proc]), and the function is written in a state-and-exception monad
    over [Proc].  Every statement below holds for all kernels; the closed
    examples at the end run the function on small tables. *)

From Stdlib Require Import Ascii String List FinFun ZArith Bool Lia.
Import ListNotations.

Local Open Scope string_scope.
Local Open Scope list_scope.

(** ** Exceptions *)

(** [SystemError(what, errno)], the only exception type the function
    throws (SystemError.hpp): a message and the value of [errno] at the
    throw. *)
Record SystemError : Type := mkSystemError {
  what_arg : string;
  errnum : Z
}.

(** ** The C library and the file system behind it *)

(** What the calls of <dirent.h>, <stdlib.h>, <sys/stat.h> and <unistd.h>
    answer.  A path argument is interpreted from a working directory, the
    first argument of each field; a failure is [inl errno].

    - [k_opendir cwd name]: the [d_name]s that successive [readdir] calls
      on the opened stream return before the first null pointer;
    - [k_realpath cwd path]: the malloc'ed result of
      [realpath(path, nullptr)];
    - [k_lstat cwd path], [k_stat cwd path]: [st_mode] of the entry itself,
      respectively of the file reached through it;
    - [k_readlink cwd path]: the whole text stored in the link;
    - [k_chdir cwd path]: the directory [chdir(path)] moves to;
    - [k_fchdir d]: whether the process may move back to a directory [d]
      it has kept a handle on;
    - [PATH_MAX]: the constant of <limits.h>. *)
Record Kernel : Type := mkKernel {
  PATH_MAX : nat;
  k_opendir : string -> string -> Z + list string;
  k_realpath : string -> string -> Z + string;
  k_lstat : string -> string -> Z + Z;
  k_stat : string -> string -> Z + Z;
  k_readlink : string -> string -> Z + string;
  k_chdir : string -> string -> Z + string;
  k_fchdir : string -> Z + unit
}.

(** The state of the calling process that the function reads or writes.
    Open descriptors and directory streams are not part of it. *)
Record Proc : Type := mkProc {
  cwd : string;
  errno : Z
}.

Definition set_errno (e : Z) (p : Proc) : Proc := mkProc (cwd p) e.
Definition set_cwd (d : string) (p : Proc) : Proc := mkProc d (errno p).

(** <sys/stat.h>: the file-type bits of [st_mode] (octal 0170000 and
    0120000 on Linux). *)
Definition S_IFMT : Z := 0xF000.
Definition S_IFLNK : Z := 0xA000.
Definition S_IFREG : Z := 0x8000.
Definition S_IFDIR : Z := 0x4000.
Definition S_IFCHR : Z := 0x2000.

Definition S_ISLNK (st_mode : Z) : bool :=
  Z.eqb (Z.land st_mode S_IFMT) S_IFLNK.

(** ** The monad: process state and C++ exceptions *)

(** A computation ends in a value or in a thrown [SystemError]; the
    process state is there in both cases (an exception does not undo a
    change of directory). *)
Definition M (A : Type) : Type := Proc -> (SystemError + A) * Proc.

Definition ret {A : Type} (a : A) : M A := fun p => (inr a, p).

Definition bind {A B : Type} (m : M A) (k : A -> M B) : M B :=
  fun p =>
    match m p with
    | (inl e, p') => (inl e, p')
    | (inr a, p') => k a p'
    end.

Notation "x <- m ;; k" := (bind m (fun x => k))
  (at level 61, m at next level, right associativity).

(** [throw SystemError(msg, errno)]. *)
Definition throw_errno {A : Type} (msg : string) : M A :=
  fun p => (inl (mkSystemError msg (errno p)), p).

(** A C library call: it reads the working directory, and on failure it
    stores the error number in [errno] and returns the null value
    ([nullptr] or -1), here [None].  What a successful call leaves in
    [errno], which C does not fix, is taken to be what was there. *)
Definition libc {A : Type} (call : string -> Z + A) : M (option A) :=
  fun p =>
    match call (cwd p) with
    | inl e => (inr None, set_errno e p)
    | inr a => (inr (Some a), p)
    end.

(** The path of a directory entry: [dirpath + "/" + string(entry->d_name)]. *)
Definition entry_path (dirpath d_name : string) : string :=
  (dirpath ++ "/" ++ d_name)%string.

Section LsInput.

Variable K : Kernel.

(** The texts of the two exceptions of [ChDir]: utils.cpp is not part of
    the sources, so they are left as parameters. *)
Variables msg_chdir msg_popd : string.

Definition opendir (name : string) : M (option (list string)) :=
  libc (fun c => k_opendir K c name).

Definition realpath (path : string) : M (option string) :=
  libc (fun c => k_realpath K c path).

Definition lstat (path : string) : M (option Z) :=
  libc (fun c => k_lstat K c path).

(** [readlink(path, buf, bufsiz)] copies at most [bufsiz] bytes of the
    link's text into [buf] and returns how many it copied; the value here
    is [string(buf, len)]. *)
Definition readlink (path : string) (bufsiz : nat) : M (option string) :=
  libc (fun c =>
          match k_readlink K c path with
          | inl e => inl e
          | inr text => inr (substring 0 bufsiz text)
          end).

(** Modelled from the spec: [ChDir] of utils.hpp, whose implementation is
    not among the sources.  The spec's scoped operation "acquire the
    override (e.g. temporarily change working directory), perform
    resolution, and guarantee the override is released": the constructor
    remembers the current directory and changes to [path]; [popd] goes
    back to the remembered directory.  Either "fails ... if the override
    cannot be acquired or released", and a failed call leaves the working
    directory where it was.  The destructor that runs when the guard goes
    out of scope is taken to have nothing left to do once [popd] has been
    called. *)
Record ChDir : Type := mkChDir {
  olddir : string
}.

Definition ChDir_new (path : string) : M ChDir :=
  fun p =>
    match k_chdir K (cwd p) path with
    | inl e => throw_errno msg_chdir (set_errno e p)
    | inr d => (inr (mkChDir (cwd p)), set_cwd d p)
    end.

Definition popd (cd : ChDir) : M unit :=
  fun p =>
    match k_fchdir K (olddir cd) with
    | inl e => throw_errno msg_popd (set_errno e p)
    | inr _ => (inr tt, set_cwd (olddir cd) p)
    end.

(** Lines 87-93: the destination of a link, resolved from inside
    [dirpath].  [popd] runs before the result of [realpath] is looked at. *)
Definition resolve_link (dirpath lnk_rel : string) : M string :=
  cd <- ChDir_new dirpath ;;
  lnk_dst_real <- realpath lnk_rel ;;
  _ <- popd cd ;;
  match lnk_dst_real with
  | None => throw_errno "Failure in realpath(): "
  | Some lnk_dst => ret lnk_dst
  end.

(** Lines 73-96: the body of the [readdir] loop for one entry; [vec] is
    the vector of matches so far. *)
Definition scan_entry (dirpath target d_name : string) (vec : list string)
  : M (list string) :=
  let path := entry_path dirpath d_name in
  stbuf <- lstat path ;;
  match stbuf with
  | None => throw_errno "Failure in stat(): "
  | Some st_mode =>
      if S_ISLNK st_mode then
        len <- readlink path (PATH_MAX K) ;;
        match len with
        | None => throw_errno "Failure in readlink(): "
        | Some lnk_rel =>
            lnk_dst <- resolve_link dirpath lnk_rel ;;
            if String.eqb target lnk_dst
            then ret (vec ++ [path])
            else ret vec
        end
      else ret vec
  end.

(** Line 72: [while ((entry = readdir(dir)))], over the names the stream
    still holds. *)
Fixpoint scan_entries (dirpath target : string) (dir : list string)
  (vec : list string) : M (list string) :=
  match dir with
  | [] => ret vec
  | d_name :: dir' =>
      vec' <- scan_entry dirpath target d_name vec ;;
      scan_entries dirpath target dir' vec'
  end.

(** Lines 59-100. *)
Definition getLinksTo (target_rel dirpath : string) : M (list string) :=
  dir <- opendir dirpath ;;
  match dir with
  | None => throw_errno "Unable to open directory: "
  | Some dir =>
      target_real_c <- realpath target_rel ;;
      match target_real_c with
      | None => throw_errno "Failure in realpath(): "
      | Some target => scan_entries dirpath target dir []
      end
  end.

(** ** What the file system says about an entry

    The same facts read off the kernel directly, with no process state:
    they are what the results of [getLinksTo] are compared with.  [c] is
    the working directory of the caller. *)

(** The entry resolves, from inside [dirpath], to [target]: it is a
    symbolic link by [lstat], its text can be read, [dirpath] can be
    entered, and [realpath] of the text read is [target]. *)
Definition links_to (c dirpath target d_name : string) : bool :=
  let path := entry_path dirpath d_name in
  match k_lstat K c path with
  | inr st_mode =>
      S_ISLNK st_mode &&
      match k_readlink K c path, k_chdir K c dirpath with
      | inr text, inr d =>
          match k_realpath K d (substring 0 (PATH_MAX K) text) with
          | inr lnk_dst => String.eqb target lnk_dst
          | inl _ => false
          end
      | _, _ => false
      end
  | inl _ => false
  end.

Definition symlink_to (c dirpath target d_name : string) : Prop :=
  exists st_mode text d,
    k_lstat K c (entry_path dirpath d_name) = inr st_mode /\
    S_ISLNK st_mode = true /\
    k_readlink K c (entry_path dirpath d_name) = inr text /\
    k_chdir K c dirpath = inr d /\
    k_realpath K d (substring 0 (PATH_MAX K) text) = inr target.


(** The entry is a symbolic link whose destination does not resolve (a
    broken or dangling link): everything succeeds but [realpath], which
    fails with [e]. *)
Definition dangling (c dirpath d_name : string) (e : Z) : Prop :=
  exists st_mode text d,
    k_lstat K c (entry_path dirpath d_name) = inr st_mode /\
    S_ISLNK st_mode = true /\
    k_readlink K c (entry_path dirpath d_name) = inr text /\
    k_chdir K c dirpath = inr d /\
    k_fchdir K c = inr tt /\
    k_realpath K d (substring 0 (PATH_MAX K) text) = inl e.

(** No call made for the entry fails: [lstat] answers and, for a link,
    so do [readlink], the change of directory and back, and [realpath]. *)
Definition entry_valid (c dirpath d_name : string) : bool :=
  let path := entry_path dirpath d_name in
  match k_lstat K c path with
  | inr st_mode =>
      if S_ISLNK st_mode then
        match k_readlink K c path, k_chdir K c dirpath, k_fchdir K c with
        | inr text, inr d, inr _ =>
            match k_realpath K d (substring 0 (PATH_MAX K) text) with
            | inr _ => true
            | inl _ => false
            end
        | _, _, _ => false
        end
      else true
  | inl _ => false
  end.

(** The matches of a directory listing, in the order of the listing. *)
Definition matches (c dirpath target : string) (dir : list string)
  : list string :=
  map (entry_path dirpath) (filter (links_to c dirpath target) dir).

End LsInput.


(** The kernel [K] in which every link stores only the first [PATH_MAX]
    bytes of its text. *)
Definition truncate_links (K : Kernel) : Kernel :=
  mkKernel (PATH_MAX K) (k_opendir K) (k_realpath K) (k_lstat K) (k_stat K)
           (fun c path =>
              match k_readlink K c path with
              | inl e => inl e
              | inr text => inr (substring 0 (PATH_MAX K) text)
              end)
           (k_chdir K) (k_fchdir K).

(** ** The callers: [printLinks] and [main] *)

(** What [main] asks of the C library beyond [Kernel].  A descriptor is
    named by the file it was opened on.

    - [k_getopt argv]: the values successive calls of
      [getopt(argc, argv, "hv")] return before -1;
    - [k_open cwd path]: [open(path, O_RDWR | O_CLOEXEC | O_NONBLOCK)];
    - [k_ioctl_name fd]: [ioctl(fd, EVIOCGNAME(sizeof(buf)), buf)], on
      success its return value and the C string left in [buf];
    - [k_close fd]: [close(fd)]. *)
Record Devices : Type := mkDevices {
  k_getopt : list string -> list Z;
  k_open : string -> string -> Z + string;
  k_ioctl_name : string -> Z + (Z * string);
  k_close : string -> Z + unit
}.

(** <stdlib.h>. *)
Definition EXIT_SUCCESS : Z := 0.
Definition EXIT_FAILURE : Z := 1.

(** A character constant as the [int] it is compared with. *)
Definition chr (a : ascii) : Z := Z.of_nat (nat_of_ascii a).

(** What [std::endl] and a newline in a [printf] format write. *)
Definition endl : string := String (ascii_of_nat 10) EmptyString.

(** [s.substr(pos, n)]: [std::out_of_range] ([None]) when [pos] is beyond
    the end of [s], else the at most [n] bytes from [pos] on. *)
Definition substr (s : string) (pos n : nat) : option string :=
  if Nat.ltb (String.length s) pos then None else Some (substring pos n s).

Definition devdir : string := "/dev/input".

(** Lines 120-125 and 128: the texts of [-h] and [-v]. *)
Definition help_text : string :=
  ("lsinput:" ++ endl ++
   "    List all input devices from /dev/input/event*" ++ endl ++
   "    Display their names, ids, and paths." ++ endl ++
   "Usage:" ++ endl ++
   "    lsinput [-hv]" ++ endl)%string.

Definition version_text : string := ("lsinput v0.1" ++ endl)%string.

(** Lines 117-130: the [getopt] loop over the values [getopt] returns.
    [Some text]: [text] is printed and [main] returns [EXIT_SUCCESS];
    [None]: the loop has run to the end. *)
Fixpoint parse_options (cs : list Z) : option string :=
  match cs with
  | [] => None
  | c :: cs' =>
      if Z.eqb c (chr "h") then Some help_text
      else if Z.eqb c (chr "v") then Some version_text
      else parse_options cs'
  end.

Section Report.

Variable K : Kernel.
Variable D : Devices.
Variables msg_chdir msg_popd : string.

(** [pathBasename] of utils.hpp and [SystemError::what] of
    SystemError.hpp are not part of the sources: parameters. *)
Variable pathBasename : string -> string.
Variable what : SystemError -> string.

(** Line 107: the line written for one link. *)
Definition link_line (dir_base lnk : string) : string :=
  ("    " ++ dir_base ++ ": " ++ pathBasename lnk ++ endl)%string.

(** Lines 106-107: the [for] loop over the links; the value is the text
    written to [cout]. *)
Fixpoint print_each (dir_base : string) (links : list string) : string :=
  match links with
  | [] => EmptyString
  | lnk :: links' =>
      (link_line dir_base lnk ++ print_each dir_base links')%string
  end.

(** Lines 102-111.  The value is the text written to [cout]; the
    [try]/[catch] is the case distinction on how [getLinksTo] ends.  The
    line of the handler has no [endl]. *)
Definition printLinks (path dir : string) (p : Proc) : string * Proc :=
  let dir_base := pathBasename dir in
  match getLinksTo K msg_chdir msg_popd path dir p with
  | (inr links, p') => (print_each dir_base links, p')
  | (inl e, p') =>
      (("    " ++ dir_base ++ ": " ++ "Unable to acquire links: " ++ what e)
         %string, p')
  end.

(** Lines 141-161: the body of the loop of [main] for one entry of
    [/dev/input]; the value is the text written to [cout]. *)
Definition device (filename : string) (p : Proc) : string * Proc :=
  match substr filename 0 5 with
  | None => (EmptyString, p)
  | Some head =>
      if negb (String.eqb head "event") then (EmptyString, p)
      else
        let path := (devdir ++ "/" ++ filename)%string in
        match k_open D (cwd p) path with
        | inl e => (EmptyString, set_errno e p)
        | inr fd =>
            let (name, p1) :=
              match k_ioctl_name D fd with
              | inl e => ("unknown", set_errno e p)
              | inr (ret, buf) =>
                  (if Z.ltb 0 ret then buf else "unknown", p)
              end in
            let header := (pathBasename path ++ ": " ++ name ++ endl)%string in
            let (out1, p2) := printLinks path "/dev/input/by-path" p1 in
            let (out2, p3) := printLinks path "/dev/input/by-id" p2 in
            let p4 :=
              match k_close D fd with
              | inl e => set_errno e p3
              | inr _ => p3
              end in
            ((header ++ out1 ++ out2)%string, p4)
        end
  end.

(** Line 140: the [readdir] loop of [main]. *)
Fixpoint devices (dir : list string) (p : Proc) : string * Proc :=
  match dir with
  | [] => (EmptyString, p)
  | filename :: dir' =>
      let (out, p1) := device filename p in
      let (outs, p2) := devices dir' p1 in
      ((out ++ outs)%string, p2)
  end.

(** Lines 113-165.  The value is the exit status and the text written to
    the standard output. *)
Definition main (argv : list string) (p : Proc) : (Z * string) * Proc :=
  match parse_options (k_getopt D argv) with
  | Some text => ((EXIT_SUCCESS, text), p)
  | None =>
      match k_opendir K (cwd p) devdir with
      | inl e =>
          ((EXIT_FAILURE,
            ("Unable to open /dev/input directory" ++ endl)%string),
           set_errno e p)
      | inr dir =>
          let (out, p') := devices dir p in ((0%Z, out), p')
      end
  end.

End Report.

(** ** Directories as a whole *)

Section Listing.

Variable K : Kernel.

(** [lstat] answers for the entry and reports something other than a
    symbolic link. *)
Definition plain_entry (c dirpath d_name : string) : bool :=
  match k_lstat K c (entry_path dirpath d_name) with
  | inr st_mode => negb (S_ISLNK st_mode)
  | inl _ => false
  end.


End Listing.

(** The messages of the exceptions [getLinksTo] can end with. *)
Definition messages (msg_chdir msg_popd : string) : list string :=
  [ "Unable to open directory: "; "Failure in realpath(): ";
    "Failure in stat(): "; "Failure in readlink(): "; msg_chdir; msg_popd ].

(** ** A file system given by tables

    Concrete kernels for the closed examples: every table is keyed by the
    path made absolute from the working directory, and an absent key is
    the error [ENOENT]. *)

Definition ENOENT : Z := 2.
Definition EACCES : Z := 13.
Definition ENOTDIR : Z := 20.

Fixpoint assoc {A : Type} (key : string) (tbl : list (string * A)) : Z + A :=
  match tbl with
  | [] => inl ENOENT
  | (k, a) :: tbl' => if String.eqb key k then inr a else assoc key tbl'
  end.

Definition absolute (c path : string) : string :=
  match path with
  | String "/"%char _ => path
  | _ => (c ++ "/" ++ path)%string
  end.

Record Tables : Type := mkTables {
  t_dirs : list (string * list string);
  t_lstat : list (string * Z);
  t_stat : list (string * Z);
  t_links : list (string * string);
  t_real : list (string * string);
  t_noreturn : list string
}.

Definition enter (t : Tables) (c path : string) : Z + string :=
  match assoc (absolute c path) (t_real t) with
  | inl e => inl e
  | inr d =>
      match assoc d (t_dirs t) with
      | inl _ => inl ENOTDIR
      | inr _ => inr d
      end
  end.

Definition kernel_of (path_max : nat) (t : Tables) : Kernel :=
  {| PATH_MAX := path_max;
     k_opendir := fun c path =>
       match enter t c path with
       | inl e => inl e
       | inr d => assoc d (t_dirs t)
       end;
     k_realpath := fun c path => assoc (absolute c path) (t_real t);
     k_lstat := fun c path => assoc (absolute c path) (t_lstat t);
     k_stat := fun c path => assoc (absolute c path) (t_stat t);
     k_readlink := fun c path => assoc (absolute c path) (t_links t);
     k_chdir := enter t;
     k_fchdir := fun d =>
       if existsb (String.eqb d) (t_noreturn t) then inl EACCES else inr tt
  |}.

(** [/dev/input/by-id] with two links into [/dev/input]; the process runs
    in [/root], from where the link texts lead nowhere. *)
Definition by_id : string := "/dev/input/by-id".

Definition input_real : list (string * string) :=
  [ ("/root", "/root");
    ("/dev/input", "/dev/input");
    (by_id, by_id);
    ("/dev/input/event3", "/dev/input/event3");
    ("/dev/input/event4", "/dev/input/event4");
    ("/dev/input/by-id/../event3", "/dev/input/event3");
    ("/dev/input/by-id/../event4", "/dev/input/event4");
    ("/dev/input/by-id/usb-kbd", "/dev/input/event3");
    ("/dev/input/by-id/usb-mouse", "/dev/input/event4") ].

Definition input_tables : Tables :=
  {| t_dirs :=
       [ (by_id, [ "."; ".."; "usb-kbd"; "usb-mouse" ]);
         ("/dev/input", [ "."; ".."; "by-id"; "event3"; "event4" ]);
         ("/root", [ "."; ".." ]) ];
     t_lstat :=
       [ ("/dev/input/by-id/.", 0x41ED);
         ("/dev/input/by-id/..", 0x41ED);
         ("/dev/input/by-id/usb-kbd", 0xA1FF);
         ("/dev/input/by-id/usb-mouse", 0xA1FF);
         ("/dev/input/event3", 0x21B0);
         ("/dev/input/event4", 0x21B0) ];
     t_stat :=
       [ ("/dev/input/by-id/.", 0x41ED);
         ("/dev/input/by-id/..", 0x41ED);
         ("/dev/input/by-id/usb-kbd", 0x21B0);
         ("/dev/input/by-id/usb-mouse", 0x21B0);
         ("/dev/input/event3", 0x21B0);
         ("/dev/input/event4", 0x21B0) ];
     t_links :=
       [ ("/dev/input/by-id/usb-kbd", "../event3");
         ("/dev/input/by-id/usb-mouse", "../event4") ];
     t_real := input_real;
     t_noreturn := []
  |}%Z.

(** The same directory with one more entry, a link whose destination
    [/dev/input/event9] is gone, listed after [usb-kbd]. *)
Definition stale_tables : Tables :=
  {| t_dirs :=
       [ (by_id, [ "."; ".."; "usb-kbd"; "stale"; "usb-mouse" ]);
         ("/dev/input", [ "."; ".."; "by-id"; "event3"; "event4" ]);
         ("/root", [ "."; ".." ]) ];
     t_lstat := ("/dev/input/by-id/stale", 0xA1FF%Z) :: t_lstat input_tables;
     t_stat := t_stat input_tables;
     t_links := ("/dev/input/by-id/stale", "../event9") :: t_links input_tables;
     t_real := input_real;
     t_noreturn := []
  |}.

(** The same directory where [lstat] fails on the entry [usb-mouse] (the
    entry is listed but has no metadata any more). *)
Definition racy_tables : Tables :=
  {| t_dirs := t_dirs input_tables;
     t_lstat :=
       [ ("/dev/input/by-id/.", 0x41ED);
         ("/dev/input/by-id/..", 0x41ED);
         ("/dev/input/by-id/usb-kbd", 0xA1FF) ];
     t_stat := t_stat input_tables;
     t_links := t_links input_tables;
     t_real := input_real;
     t_noreturn := []
  |}%Z.

(** The process cannot go back to [/root] once it has left it. *)
Definition noreturn_tables : Tables :=
  {| t_dirs := t_dirs input_tables;
     t_lstat := t_lstat input_tables;
     t_stat := t_stat input_tables;
     t_links := t_links input_tables;
     t_real := input_real;
     t_noreturn := [ "/root" ]
  |}.

Fixpoint slashes (n : nat) : string :=
  match n with
  | O => EmptyString
  | S n' => String "/"%char (slashes n')
  end.

(** A link text of 4100 bytes: its first 4096 bytes spell [../event3] with
    4087 extra slashes, the last four are [.bak]. *)
Definition long_text : string :=
  ("../" ++ slashes 4087 ++ "event3" ++ ".bak")%string.

Definition long_tables : Tables :=
  {| t_dirs := [ (by_id, [ "."; ".."; "usb-kbd" ]) ];
     t_lstat :=
       [ ("/dev/input/by-id/.", 0x41ED);
         ("/dev/input/by-id/..", 0x41ED);
         ("/dev/input/by-id/usb-kbd", 0xA1FF) ];
     t_stat := t_stat input_tables;
     t_links := [ ("/dev/input/by-id/usb-kbd", long_text) ];
     t_real :=
       (("/dev/input/by-id/../" ++ slashes 4087 ++ "event3")%string,
        "/dev/input/event3") :: input_real;
     t_noreturn := []
  |}%Z.

Definition input_kernel : Kernel := kernel_of 4096 input_tables.
Definition stale_kernel : Kernel := kernel_of 4096 stale_tables.
Definition racy_kernel : Kernel := kernel_of 4096 racy_tables.
Definition noreturn_kernel : Kernel := kernel_of 4096 noreturn_tables.
Definition long_kernel : Kernel := kernel_of 4096 long_tables.

(** The link [usb-mouse] is listed and is a link, but its text cannot be
    read. *)
Definition unreadable_tables : Tables :=
  {| t_dirs := t_dirs input_tables;
     t_lstat := t_lstat input_tables;
     t_stat := t_stat input_tables;
     t_links := [ ("/dev/input/by-id/usb-kbd", "../event3") ];
     t_real := input_real;
     t_noreturn := []
  |}.

(** [lstat] answers for every entry of [/dev/input], none of them a
    link. *)
Definition devdir_tables : Tables :=
  {| t_dirs := t_dirs input_tables;
     t_lstat :=
       ("/dev/input/.", 0x41ED%Z) :: ("/dev/input/..", 0x41ED%Z)
       :: ("/dev/input/by-id", 0x41ED%Z) :: t_lstat input_tables;
     t_stat := t_stat input_tables;
     t_links := t_links input_tables;
     t_real := input_real;
     t_noreturn := []
  |}.

Definition unreadable_kernel : Kernel := kernel_of 4096 unreadable_tables.
Definition devdir_kernel : Kernel := kernel_of 4096 devdir_tables.

Definition root_proc : Proc := mkProc "/root" 0.

(** A [pathBasename] and a [what] for the examples: the part of a path
    after its last slash, and the message alone. *)
Fixpoint has_slash (s : string) : bool :=
  match s with
  | EmptyString => false
  | String a s' => Ascii.eqb a "/" || has_slash s'
  end.

Fixpoint last_part (s : string) : string :=
  match s with
  | EmptyString => EmptyString
  | String a s' => if has_slash s then last_part s' else s
  end.

Definition message_only (e : SystemError) : string := what_arg e.

(** Two event devices; only the first answers the query for its name. *)
Definition input_devices : Devices :=
  {| k_getopt := fun argv =>
       map (fun arg : string =>
              if String.eqb arg "-h" then chr "h"
              else if String.eqb arg "-v" then chr "v"
              else chr "?")
           (tl argv);
     k_open := fun c path =>
       if String.eqb path "/dev/input/event3"
          || String.eqb path "/dev/input/event4"
       then inr path else inl EACCES;
     k_ioctl_name := fun fd =>
       if String.eqb fd "/dev/input/event3"
       then inr (9%Z, "Keyboard") else inl 25%Z;
     k_close := fun _ => inr tt
  |}.

(** ** Runs of the examples *)

Example run_main :
  main input_kernel input_devices "chdir" "popd" last_part message_only
    [ "lsinput" ] root_proc
  = ((0%Z,
      ("event3: Keyboard" ++ endl ++
       "    by-path: Unable to acquire links: Unable to open directory: " ++
       "    by-id: usb-kbd" ++ endl ++
       "event4: unknown" ++ endl ++
       "    by-path: Unable to acquire links: Unable to open directory: " ++
       "    by-id: usb-mouse" ++ endl)%string),
     mkProc "/root" ENOENT).
Proof. vm_compute. reflexivity. Qed.

Example run_input :
  getLinksTo input_kernel "chdir" "popd" "/dev/input/event3" by_id root_proc
  = (inr [ "/dev/input/by-id/usb-kbd" ], root_proc).
Proof. vm_compute. reflexivity. Qed.

Example run_input_mouse :
  getLinksTo input_kernel "chdir" "popd" "/dev/input/event4" by_id root_proc
  = (inr [ "/dev/input/by-id/usb-mouse" ], root_proc).
Proof. vm_compute. reflexivity. Qed.

Example run_stale :
  getLinksTo stale_kernel "chdir" "popd" "/dev/input/event3" by_id root_proc
  = (inl (mkSystemError "Failure in realpath(): " ENOENT),
     mkProc "/root" ENOENT).
Proof. vm_compute. reflexivity. Qed.

Example run_racy :
  getLinksTo racy_kernel "chdir" "popd" "/dev/input/event3" by_id root_proc
  = (inl (mkSystemError "Failure in stat(): " ENOENT), mkProc "/root" ENOENT).
Proof. vm_compute. reflexivity. Qed.

Example run_noreturn :
  getLinksTo noreturn_kernel "chdir" "popd" "/dev/input/event3" by_id root_proc
  = (inl (mkSystemError "popd" EACCES), mkProc by_id EACCES).
Proof. vm_compute. reflexivity. Qed.

Example run_long :
  getLinksTo long_kernel "chdir" "popd" "/dev/input/event3" by_id root_proc
  = (inr [ "/dev/input/by-id/usb-kbd" ], root_proc).
Proof. vm_compute. reflexivity. Qed.

(** ** Properties of the scan *)

Section Scan.

Variable K : Kernel.
Variables msg_chdir msg_popd : string.

Local Abbreviation resolve := (resolve_link K msg_chdir msg_popd).
Local Abbreviation entry := (scan_entry K msg_chdir msg_popd).
Local Abbreviation entries := (scan_entries K msg_chdir msg_popd).
Local Abbreviation links := (getLinksTo K msg_chdir msg_popd).

Ltac run :=
  unfold scan_entry, resolve_link, lstat, readlink, realpath, opendir, libc,
    ChDir_new, popd, throw_errno, bind, ret; cbn.

(** The four ways [resolve_link] can end, read off the kernel. *)
Lemma resolve_link_run (dirpath lnk_rel : string) (p : Proc) :
  resolve dirpath lnk_rel p =
  match k_chdir K (cwd p) dirpath with
  | inl e => (inl (mkSystemError msg_chdir e), set_errno e p)
  | inr d =>
      match k_fchdir K (cwd p), k_realpath K d lnk_rel with
      | inl e', _ => (inl (mkSystemError msg_popd e'), mkProc d e')
      | inr _, inl e =>
          (inl (mkSystemError "Failure in realpath(): " e), set_errno e p)
      | inr _, inr lnk_dst => (inr lnk_dst, p)
      end
  end.
Proof.
  run.
  destruct (k_chdir K (cwd p) dirpath) as [e | d]; cbn; [reflexivity |].
  destruct (k_realpath K d lnk_rel) as [e | dst]; cbn;
    destruct (k_fchdir K (cwd p)) as [e' | []]; cbn;
    try reflexivity; destruct p; reflexivity.
Qed.

(** One turn of the loop returns normally exactly when no call made for
    the entry fails; the process is then as before, and the entry has
    been appended exactly when it resolves to [target]. *)
Lemma scan_entry_ok (dirpath target d_name : string) (vec v : list string)
  (p p' : Proc) :
  entry dirpath target d_name vec p = (inr v, p') <->
  entry_valid K (cwd p) dirpath d_name = true /\
  v = (if links_to K (cwd p) dirpath target d_name
       then vec ++ [entry_path dirpath d_name] else vec) /\
  p' = p.
Proof.
  unfold scan_entry, bind at 1 2, lstat, readlink, libc, entry_valid, links_to.
  cbn.
  destruct (k_lstat K (cwd p) (entry_path dirpath d_name)) as [e | m]; cbn.
  { split; [discriminate | intros [H _]; discriminate]. }
  destruct (S_ISLNK m); cbn.
  2:{ unfold ret. split.
      - intros H; inversion H; auto.
      - intros (_ & -> & ->); reflexivity. }
  destruct (k_readlink K (cwd p) (entry_path dirpath d_name)) as [e | text];
    cbn.
  { split; [discriminate | intros [H _]; discriminate]. }
  unfold bind. rewrite resolve_link_run.
  destruct (k_chdir K (cwd p) dirpath) as [e | d].
  { split; [discriminate | intros [H _]; discriminate]. }
  destruct (k_fchdir K (cwd p)) as [e' | []].
  { split; [discriminate | intros [H _]; discriminate]. }
  destruct (k_realpath K d (substring 0 (PATH_MAX K) text)) as [e | dst].
  { split; [discriminate | intros [H _]; discriminate]. }
  unfold ret.
  destruct (String.eqb target dst); split.
  - intros H; inversion H; auto.
  - intros (_ & -> & ->); reflexivity.
  - intros H; inversion H; auto.
  - intros (_ & -> & ->); reflexivity.
Qed.

Lemma matches_cons (c dirpath target d_name : string) (dir : list string) :
  matches K c dirpath target (d_name :: dir) =
  (if links_to K c dirpath target d_name
   then [entry_path dirpath d_name] else []) ++
  matches K c dirpath target dir.
Proof.
  unfold matches; cbn.
  destruct (links_to K c dirpath target d_name); reflexivity.
Qed.

Lemma matches_app (c dirpath target : string) (l1 l2 : list string) :
  matches K c dirpath target (l1 ++ l2) =
  matches K c dirpath target l1 ++ matches K c dirpath target l2.
Proof. unfold matches. rewrite filter_app, map_app. reflexivity. Qed.

(** The loop returns normally exactly when every entry is valid, and then
    it has appended the matches of the listing, in order, and left the
    process as it found it. *)
Lemma scan_entries_ok (dirpath target : string) (dir : list string) :
  forall (vec v : list string) (p p' : Proc),
    entries dirpath target dir vec p = (inr v, p') <->
    forallb (entry_valid K (cwd p) dirpath) dir = true /\
    v = vec ++ matches K (cwd p) dirpath target dir /\
    p' = p.
Proof.
  induction dir as [| d_name dir IH]; intros vec v p p'.
  - cbn. unfold ret, matches; cbn. rewrite app_nil_r. split.
    + intros H; inversion H; auto.
    + intros (_ & -> & ->); reflexivity.
  - cbn [scan_entries forallb]. unfold bind at 1.
    destruct (entry dirpath target d_name vec p) as [[err | v1] p1] eqn:E.
    + split; [discriminate |].
      intros (Hv & _ & _). apply andb_true_iff in Hv as [Hv _].
      assert (X : entry dirpath target d_name vec p
                  = (inr (if links_to K (cwd p) dirpath target d_name
                          then vec ++ [entry_path dirpath d_name] else vec), p))
        by (apply scan_entry_ok; auto).
      rewrite E in X; discriminate.
    + apply scan_entry_ok in E as (Hv & -> & ->).
      rewrite Hv, IH, matches_cons. cbn [andb].
      destruct (links_to K (cwd p) dirpath target d_name);
        cbn [app]; rewrite <- ?app_assoc; cbn [app]; tauto.
Qed.

(** Valid entries in front are passed over without a trace but their
    matches. *)
Lemma scan_entries_app (dirpath target : string) (pre rest : list string) :
  forall (vec : list string) (p : Proc),
    forallb (entry_valid K (cwd p) dirpath) pre = true ->
    entries dirpath target (pre ++ rest) vec p =
    entries dirpath target rest
      (vec ++ matches K (cwd p) dirpath target pre) p.
Proof.
  induction pre as [| d_name pre IH]; intros vec p Hv.
  - unfold matches; cbn. rewrite app_nil_r. reflexivity.
  - cbn in Hv. apply andb_true_iff in Hv as [Hd Hv].
    cbn [app scan_entries]. unfold bind at 1.
    assert (X : entry dirpath target d_name vec p
                = (inr (if links_to K (cwd p) dirpath target d_name
                        then vec ++ [entry_path dirpath d_name] else vec), p))
      by (apply scan_entry_ok; auto).
    rewrite X, IH by assumption. rewrite matches_cons.
    destruct (links_to K (cwd p) dirpath target d_name);
      cbn [app]; rewrite <- ?app_assoc; reflexivity.
Qed.

(** The whole function returns normally exactly when the directory
    opens, the target resolves and every entry is valid; its value is
    then the matches of the listing. *)
Lemma getLinksTo_ok (target_rel dirpath : string) (vec : list string)
  (p p' : Proc) :
  links target_rel dirpath p = (inr vec, p') <->
  exists dir target,
    k_opendir K (cwd p) dirpath = inr dir /\
    k_realpath K (cwd p) target_rel = inr target /\
    forallb (entry_valid K (cwd p) dirpath) dir = true /\
    vec = matches K (cwd p) dirpath target dir /\
    p' = p.
Proof.
  unfold getLinksTo, bind, opendir, realpath, libc, throw_errno.
  destruct (k_opendir K (cwd p) dirpath) as [e | dir]; cbn.
  { split; [discriminate | intros (? & ? & H & _); discriminate]. }
  destruct (k_realpath K (cwd p) target_rel) as [e | target]; cbn.
  { split; [discriminate | intros (? & ? & _ & H & _); discriminate]. }
  rewrite scan_entries_ok. cbn [app]. split.
  - intros (Hv & -> & ->). exists dir, target. auto.
  - intros (dir' & target' & Hd & Ht & Hv & -> & ->).
    inversion Hd; inversion Ht; subst. auto.
Qed.

Lemma append_inj (s t u : string) : (s ++ t = s ++ u)%string -> t = u.
Proof.
  induction s as [| a s IH]; cbn; intros H; [assumption |].
  inversion H; auto.
Qed.

Lemma entry_path_inj (dirpath n1 n2 : string) :
  entry_path dirpath n1 = entry_path dirpath n2 -> n1 = n2.
Proof.
  unfold entry_path. intros H.
  apply append_inj in H. cbn in H. inversion H; reflexivity.
Qed.

Lemma links_to_iff (c dirpath target d_name : string) :
  links_to K c dirpath target d_name = true <->
  symlink_to K c dirpath target d_name.
Proof.
  unfold links_to, symlink_to. split.
  - destruct (k_lstat K c (entry_path dirpath d_name)) as [e | m];
      [discriminate |].
    destruct (S_ISLNK m) eqn:Em; [| discriminate]. cbn.
    destruct (k_readlink K c (entry_path dirpath d_name)) as [e | text];
      [discriminate |].
    destruct (k_chdir K c dirpath) as [e | d]; [discriminate |].
    destruct (k_realpath K d (substring 0 (PATH_MAX K) text)) as [e | dst]
      eqn:Er; [discriminate |].
    intros H. apply String.eqb_eq in H. subst dst.
    exists m, text, d. auto.
  - intros (m & text & d & -> & -> & -> & -> & ->). cbn.
    apply String.eqb_refl.
Qed.

Lemma matches_In (c dirpath target path : string) (dir : list string) :
  In path (matches K c dirpath target dir) <->
  exists d_name,
    In d_name dir /\ path = entry_path dirpath d_name /\
    symlink_to K c dirpath target d_name.
Proof.
  unfold matches. rewrite in_map_iff. split.
  - intros (n & <- & Hn). apply filter_In in Hn as [Hin Hl].
    exists n. rewrite <- links_to_iff. auto.
  - intros (n & Hin & -> & Hl). exists n. split; [reflexivity |].
    apply filter_In. rewrite links_to_iff. auto.
Qed.


(** *** Entries that make the scan fail *)

Lemma scan_entry_dangling (dirpath target x : string) (vec : list string)
  (e : Z) (p : Proc) :
  dangling K (cwd p) dirpath x e ->
  entry dirpath target x vec p =
  (inl (mkSystemError "Failure in realpath(): " e), set_errno e p).
Proof.
  intros (m & text & d & Hl & Hm & Hr & Hc & Hf & Hp).
  unfold scan_entry, bind at 1 2, lstat, readlink, libc. cbn.
  rewrite Hl. cbn. rewrite Hm, Hr. cbn.
  unfold bind. rewrite resolve_link_run, Hc, Hf, Hp. reflexivity.
Qed.

Lemma scan_entry_lstat_fails (dirpath target x : string) (vec : list string)
  (e : Z) (p : Proc) :
  k_lstat K (cwd p) (entry_path dirpath x) = inl e ->
  entry dirpath target x vec p =
  (inl (mkSystemError "Failure in stat(): " e), set_errno e p).
Proof.
  intros Hl. unfold scan_entry, bind, lstat, libc. cbn.
  rewrite Hl. reflexivity.
Qed.

(** C1 (as amended): a link whose destination does not resolve is not
    skipped.  When the entries listed before it are processed without a
    failure, the scan stops at the broken link and the function throws
    [SystemError("Failure in realpath(): ", errno)] with the error number
    of the failed [realpath]; no match is returned, whatever the entries
    before and after the broken link are. *)
Theorem broken_link_aborts_scan (target_rel dirpath target x : string)
  (pre post : list string) (e : Z) (p : Proc) :
  k_opendir K (cwd p) dirpath = inr (pre ++ x :: post) ->
  k_realpath K (cwd p) target_rel = inr target ->
  forallb (entry_valid K (cwd p) dirpath) pre = true ->
  dangling K (cwd p) dirpath x e ->
  links target_rel dirpath p =
  (inl (mkSystemError "Failure in realpath(): " e), set_errno e p).
Proof.
  intros Hd Ht Hpre Hx.
  unfold getLinksTo, bind at 1, opendir, libc. rewrite Hd.
  unfold bind at 1, realpath, libc. rewrite Ht.
  rewrite scan_entries_app by assumption.
  cbn [scan_entries]. unfold bind.
  rewrite (scan_entry_dangling _ _ _ _ _ _ Hx). reflexivity.
Qed.



(** C3: for a directory entry that is a symbolic link, the text read from
    the link is given to [realpath] while the working directory is the
    directory [d] that [ChDir cd(dirpath)] has entered, not the working
    directory [cwd p] of the caller: what the turn of the loop does with
    the entry is decided by [k_realpath K d] on that text, and no answer
    of [realpath] from the caller's directory enters it. *)
Theorem link_resolved_from_dirpath (dirpath target d_name : string)
  (vec : list string) (p : Proc) (st_mode : Z) (text d : string) :
  k_lstat K (cwd p) (entry_path dirpath d_name) = inr st_mode ->
  S_ISLNK st_mode = true ->
  k_readlink K (cwd p) (entry_path dirpath d_name) = inr text ->
  k_chdir K (cwd p) dirpath = inr d ->
  entry dirpath target d_name vec p =
  match k_fchdir K (cwd p),
        k_realpath K d (substring 0 (PATH_MAX K) text) with
  | inl e', _ => (inl (mkSystemError msg_popd e'), mkProc d e')
  | inr _, inr lnk_dst =>
      (inr (if String.eqb target lnk_dst
            then vec ++ [entry_path dirpath d_name] else vec), p)
  | inr _, inl e =>
      (inl (mkSystemError "Failure in realpath(): " e), set_errno e p)
  end.
Proof.
  intros Hl Hm Hr Hc.
  unfold scan_entry, bind at 1 2, lstat, readlink, libc. cbn.
  rewrite Hl. cbn. rewrite Hm, Hr. cbn.
  unfold bind. rewrite resolve_link_run, Hc.
  destruct (k_fchdir K (cwd p)) as [e' | []]; [reflexivity |].
  destruct (k_realpath K d (substring 0 (PATH_MAX K) text)) as [e | dst];
    [reflexivity |].
  unfold ret. destruct (String.eqb target dst); reflexivity.
Qed.

(** C4 (as amended): the directory is opened first and the target is
    resolved second.  When the target does not resolve, the function
    fails with [SystemError("Failure in realpath(): ", errno)] if the
    directory could be opened, and with
    [SystemError("Unable to open directory: ", errno)] if it could not. *)
Theorem directory_opened_before_target (target_rel dirpath : string)
  (e : Z) (p : Proc) :
  k_realpath K (cwd p) target_rel = inl e ->
  links target_rel dirpath p =
  match k_opendir K (cwd p) dirpath with
  | inl e' =>
      (inl (mkSystemError "Unable to open directory: " e'), set_errno e' p)
  | inr _ => (inl (mkSystemError "Failure in realpath(): " e), set_errno e p)
  end.
Proof.
  intros Ht.
  unfold getLinksTo, bind, opendir, realpath, libc, throw_errno.
  destruct (k_opendir K (cwd p) dirpath) as [e' | dir]; [reflexivity |].
  rewrite Ht. reflexivity.
Qed.

(** C5: when the directory cannot be opened, the function fails with
    [SystemError("Unable to open directory: ", errno)], [errno] being the
    error number of [opendir], whatever the target is; no other call has
    been made and the working directory is untouched. *)
Theorem unopenable_directory_error (target_rel dirpath : string)
  (e : Z) (p : Proc) :
  k_opendir K (cwd p) dirpath = inl e ->
  links target_rel dirpath p =
  (inl (mkSystemError "Unable to open directory: " e), set_errno e p).
Proof.
  intros Hd.
  unfold getLinksTo, bind, opendir, libc, throw_errno.
  rewrite Hd. reflexivity.
Qed.

(** *** The working directory of the caller *)







(** C9: when [lstat] fails on a listed entry, whatever kind of file it
    names, the function ends with an exception and its caller is given no
    vector at all.  If the entries listed before it are processed without
    a failure, the exception is [SystemError("Failure in stat(): ", errno)]
    with the error number of the failed [lstat], and the matches collected
    from those entries are dropped. *)
Theorem lstat_failure_discards_matches (target_rel dirpath x : string)
  (pre post : list string) (e : Z) (p : Proc) :
  k_opendir K (cwd p) dirpath = inr (pre ++ x :: post) ->
  k_lstat K (cwd p) (entry_path dirpath x) = inl e ->
  (exists err p', links target_rel dirpath p = (inl err, p')) /\
  (forall target,
      k_realpath K (cwd p) target_rel = inr target ->
      forallb (entry_valid K (cwd p) dirpath) pre = true ->
      links target_rel dirpath p =
      (inl (mkSystemError "Failure in stat(): " e), set_errno e p)).
Proof.
  intros Hd Hl. split.
  - destruct (links target_rel dirpath p) as [[err | vec] p'] eqn:Hrun;
      [exists err, p'; reflexivity |].
    apply getLinksTo_ok in Hrun as (dir & target & Hd' & _ & Hv & _).
    rewrite Hd in Hd'. inversion Hd'; subst dir.
    rewrite forallb_app in Hv. apply andb_true_iff in Hv as [_ Hv].
    cbn in Hv. apply andb_true_iff in Hv as [Hx _].
    unfold entry_valid in Hx. rewrite Hl in Hx. discriminate.
  - intros target Ht Hpre.
    unfold getLinksTo, bind at 1, opendir, libc. rewrite Hd.
    unfold bind at 1, realpath, libc. rewrite Ht.
    rewrite scan_entries_app by assumption.
    cbn [scan_entries]. unfold bind.
    rewrite (scan_entry_lstat_fails _ _ _ _ _ _ Hl). reflexivity.
Qed.

(** *** The buffer of [readlink] *)

Lemma substring_length (n : nat) :
  forall s : string, String.length (substring 0 n s) = Nat.min n (String.length s).
Proof.
  induction n as [| n IH]; intros [| a s]; cbn; auto.
Qed.

Lemma substring_prefix (n : nat) :
  forall s : string, prefix (substring 0 n s) s = true.
Proof.
  induction n as [| n IH]; intros [| a s]; cbn; auto.
  destruct (ascii_dec a a); [apply IH | congruence].
Qed.

Lemma substring_idem (n : nat) :
  forall s : string, substring 0 n (substring 0 n s) = substring 0 n s.
Proof.
  induction n as [| n IH]; intros [| a s]; cbn; auto.
  rewrite IH. reflexivity.
Qed.

Lemma scan_entry_truncate_links (dirpath target d_name : string)
  (vec : list string) (p : Proc) :
  scan_entry (truncate_links K) msg_chdir msg_popd dirpath target d_name vec p
  = entry dirpath target d_name vec p.
Proof.
  unfold scan_entry, bind, lstat, readlink, libc. cbn.
  destruct (k_lstat K (cwd p) (entry_path dirpath d_name)) as [e | m]; cbn;
    [reflexivity |].
  destruct (S_ISLNK m); cbn; [| reflexivity].
  destruct (k_readlink K (cwd p) (entry_path dirpath d_name)) as [e | text];
    cbn; [reflexivity |].
  rewrite substring_idem. reflexivity.
Qed.

Lemma scan_entries_truncate_links (dirpath target : string)
  (dir : list string) :
  forall (vec : list string) (p : Proc),
    scan_entries (truncate_links K) msg_chdir msg_popd dirpath target dir vec p
    = entries dirpath target dir vec p.
Proof.
  induction dir as [| d_name dir IH]; intros vec p; [reflexivity |].
  cbn [scan_entries]. unfold bind.
  rewrite scan_entry_truncate_links.
  destruct (entry dirpath target d_name vec p) as [[err | v1] p1];
    [reflexivity | apply IH].
Qed.

(** C10: for an entry that is a symbolic link, [readlink] fills a buffer
    of [PATH_MAX] bytes.  When the text stored in the link is longer, the
    call still succeeds, and the string that is resolved and compared is
    the first [PATH_MAX] bytes of the text: the turn of the loop ends as
    the resolution of that prefix ends, no exception or other trace comes
    from the bytes left out, and the whole scan runs as it would if the
    links stored the prefixes only. *)
Theorem readlink_truncates_at_PATH_MAX (dirpath target d_name : string)
  (vec : list string) (p : Proc) (st_mode : Z) (text : string) :
  k_lstat K (cwd p) (entry_path dirpath d_name) = inr st_mode ->
  S_ISLNK st_mode = true ->
  k_readlink K (cwd p) (entry_path dirpath d_name) = inr text ->
  PATH_MAX K < String.length text ->
  let lnk_rel := substring 0 (PATH_MAX K) text in
  readlink K (entry_path dirpath d_name) (PATH_MAX K) p
  = (inr (Some lnk_rel), p) /\
  String.length lnk_rel = PATH_MAX K /\
  prefix lnk_rel text = true /\
  entry dirpath target d_name vec p =
  (lnk_dst <- resolve dirpath lnk_rel ;;
   if String.eqb target lnk_dst
   then ret (vec ++ [entry_path dirpath d_name])
   else ret vec) p /\
  forall target_rel,
    links target_rel dirpath p =
    getLinksTo (truncate_links K) msg_chdir msg_popd target_rel dirpath p.
Proof.
  intros Hl Hm Hr Hlen lnk_rel. subst lnk_rel. repeat split.
  - unfold readlink, libc. rewrite Hr. reflexivity.
  - rewrite substring_length. lia.
  - apply substring_prefix.
  - unfold scan_entry, bind at 1 2, lstat, readlink, libc. cbn.
    rewrite Hl. cbn. rewrite Hm, Hr. reflexivity.
  - intros target_rel.
    unfold getLinksTo, bind, opendir, realpath, libc, throw_errno. cbn.
    destruct (k_opendir K (cwd p) dirpath) as [e | dir]; [reflexivity |].
    destruct (k_realpath K (cwd p) target_rel) as [e | tgt]; [reflexivity |].
    symmetry. apply scan_entries_truncate_links.
Qed.

End Scan.

(** ** The statements at the examples *)


(** In [stale_tables] the link [stale] is broken and every other entry of
    the directory is valid; [usb-kbd], listed before it, points to the
    target.  The scan does not skip [stale]: it throws, and the match is
    lost. *)
Lemma broken_link_not_skipped :
  k_opendir stale_kernel "/root" by_id
  = inr ([ "."; ".."; "usb-kbd" ] ++ "stale" :: [ "usb-mouse" ]) /\
  dangling stale_kernel "/root" by_id "stale" ENOENT /\
  forallb (entry_valid stale_kernel "/root" by_id)
    [ "."; ".."; "usb-kbd"; "usb-mouse" ] = true /\
  matches stale_kernel "/root" by_id "/dev/input/event3"
    [ "."; ".."; "usb-kbd"; "usb-mouse" ] = [ "/dev/input/by-id/usb-kbd" ] /\
  fst (getLinksTo stale_kernel "chdir" "popd" "/dev/input/event3" by_id
         root_proc)
  = inl (mkSystemError "Failure in realpath(): " ENOENT).
Proof.
  split; [reflexivity |]. split.
  - exists 0xA1FF%Z, "../event9", by_id. repeat split; reflexivity.
  - repeat split; vm_compute; reflexivity.
Qed.

Lemma broken_link_aborts_scan_witness :
  getLinksTo stale_kernel "chdir" "popd" "/dev/input/event3" by_id root_proc
  = (inl (mkSystemError "Failure in realpath(): " ENOENT),
     set_errno ENOENT root_proc).
Proof.
  apply (broken_link_aborts_scan stale_kernel "chdir" "popd"
           "/dev/input/event3" by_id "/dev/input/event3" "stale"
           [ "."; ".."; "usb-kbd" ] [ "usb-mouse" ] ENOENT root_proc).
  - reflexivity.
  - reflexivity.
  - reflexivity.
  - exists 0xA1FF%Z, "../event9", by_id. repeat split; reflexivity.
Defined.



(** From [/root] the text [../event3] leads nowhere; from inside the
    directory it is the device, and that is what the scan finds. *)
Lemma link_resolved_from_dirpath_witness :
  k_realpath input_kernel "/root" "../event3" = inl ENOENT /\
  k_realpath input_kernel by_id "../event3" = inr "/dev/input/event3" /\
  scan_entry input_kernel "chdir" "popd" by_id "/dev/input/event3" "usb-kbd"
    [] root_proc
  = (inr [ "/dev/input/by-id/usb-kbd" ], root_proc).
Proof.
  split; [reflexivity |]. split; [reflexivity |].
  exact (link_resolved_from_dirpath input_kernel "chdir" "popd" by_id
           "/dev/input/event3" "usb-kbd" [] root_proc 0xA1FF%Z "../event3"
           by_id eq_refl eq_refl eq_refl eq_refl).
Defined.

(** Neither [/dev/input/event9] resolves nor is [/dev/input/event3] a
    directory: the exception is the one of [opendir], not the one of the
    target's [realpath]. *)
Lemma target_error_not_first :
  k_realpath input_kernel "/root" "/dev/input/event9" = inl ENOENT /\
  getLinksTo input_kernel "chdir" "popd" "/dev/input/event9"
    "/dev/input/event3" root_proc
  = (inl (mkSystemError "Unable to open directory: " ENOTDIR),
     mkProc "/root" ENOTDIR) /\
  mkSystemError "Unable to open directory: " ENOTDIR
  <> mkSystemError "Failure in realpath(): " ENOENT.
Proof.
  split; [reflexivity |]. split; [vm_compute; reflexivity | discriminate].
Qed.

Lemma directory_opened_before_target_witness :
  getLinksTo input_kernel "chdir" "popd" "/dev/input/event9" by_id root_proc
  = match k_opendir input_kernel (cwd root_proc) by_id with
    | inl e' =>
        (inl (mkSystemError "Unable to open directory: " e'),
         set_errno e' root_proc)
    | inr _ =>
        (inl (mkSystemError "Failure in realpath(): " ENOENT),
         set_errno ENOENT root_proc)
    end.
Proof.
  apply (directory_opened_before_target input_kernel "chdir" "popd"
           "/dev/input/event9" by_id ENOENT root_proc).
  reflexivity.
Defined.

Lemma unopenable_directory_error_witness :
  k_opendir input_kernel "/root" "/dev/input/by-uuid" = inl ENOENT /\
  getLinksTo input_kernel "chdir" "popd" "/dev/input/event3"
    "/dev/input/by-uuid" root_proc
  = (inl (mkSystemError "Unable to open directory: " ENOENT),
     set_errno ENOENT root_proc).
Proof.
  split; [reflexivity |].
  apply (unopenable_directory_error input_kernel "chdir" "popd"
           "/dev/input/event3" "/dev/input/by-uuid" ENOENT root_proc).
  reflexivity.
Defined.




(** [usb-kbd] matches and is listed before [usb-mouse], on which [lstat]
    fails: the caller gets the exception and not the match. *)
Lemma lstat_failure_discards_matches_witness :
  matches racy_kernel "/root" by_id "/dev/input/event3"
    [ "."; ".."; "usb-kbd" ] = [ "/dev/input/by-id/usb-kbd" ] /\
  (exists err p',
      getLinksTo racy_kernel "chdir" "popd" "/dev/input/event3" by_id
        root_proc = (inl err, p')) /\
  getLinksTo racy_kernel "chdir" "popd" "/dev/input/event3" by_id root_proc
  = (inl (mkSystemError "Failure in stat(): " ENOENT),
     set_errno ENOENT root_proc).
Proof.
  split; [vm_compute; reflexivity |].
  pose proof (lstat_failure_discards_matches racy_kernel "chdir" "popd"
                "/dev/input/event3" by_id "usb-mouse"
                [ "."; ".."; "usb-kbd" ] [] ENOENT root_proc
                eq_refl eq_refl) as [H1 H2].
  split; [exact H1 |].
  apply (H2 "/dev/input/event3"); reflexivity.
Defined.

Lemma long_text_length : PATH_MAX long_kernel < String.length long_text.
Proof. apply Nat.ltb_lt. vm_compute. reflexivity. Defined.

(** The link stores 4100 bytes; the 4096 that fit the buffer name the
    device, and the entry is reported as a link to it. *)
Lemma readlink_truncates_at_PATH_MAX_witness :
  String.length long_text = 4100 /\
  k_realpath long_kernel by_id long_text = inl ENOENT /\
  getLinksTo long_kernel "chdir" "popd" "/dev/input/event3" by_id root_proc
  = (inr [ "/dev/input/by-id/usb-kbd" ], root_proc) /\
  let lnk_rel := substring 0 (PATH_MAX long_kernel) long_text in
  readlink long_kernel (entry_path by_id "usb-kbd") (PATH_MAX long_kernel)
    root_proc = (inr (Some lnk_rel), root_proc) /\
  String.length lnk_rel = PATH_MAX long_kernel /\
  prefix lnk_rel long_text = true /\
  scan_entry long_kernel "chdir" "popd" by_id "/dev/input/event3" "usb-kbd"
    [] root_proc =
  (lnk_dst <- resolve_link long_kernel "chdir" "popd" by_id lnk_rel ;;
   if String.eqb "/dev/input/event3" lnk_dst
   then ret ([] ++ [ entry_path by_id "usb-kbd" ])
   else ret []) root_proc /\
  forall target_rel,
    getLinksTo long_kernel "chdir" "popd" target_rel by_id root_proc =
    getLinksTo (truncate_links long_kernel) "chdir" "popd" target_rel by_id
      root_proc.
Proof.
  split; [vm_compute; reflexivity |].
  split; [vm_compute; reflexivity |].
  split; [vm_compute; reflexivity |].
  apply (readlink_truncates_at_PATH_MAX long_kernel "chdir" "popd" by_id
           "/dev/input/event3" "usb-kbd" [] root_proc 0xA1FF%Z long_text).
  - reflexivity.
  - reflexivity.
  - reflexivity.
  - exact long_text_length.
Defined.

(** ** More on [getLinksTo] *)

Section ScanMore.

Variable K : Kernel.
Variables msg_chdir msg_popd : string.

Local Abbreviation resolve := (resolve_link K msg_chdir msg_popd).
Local Abbreviation entry := (scan_entry K msg_chdir msg_popd).
Local Abbreviation entries := (scan_entries K msg_chdir msg_popd).
Local Abbreviation links := (getLinksTo K msg_chdir msg_popd).

(** One turn of the loop, read off the kernel. *)
Lemma scan_entry_run (dirpath target d_name : string) (vec : list string)
  (p : Proc) :
  entry dirpath target d_name vec p =
  match k_lstat K (cwd p) (entry_path dirpath d_name) with
  | inl e => (inl (mkSystemError "Failure in stat(): " e), set_errno e p)
  | inr st_mode =>
      if S_ISLNK st_mode then
        match k_readlink K (cwd p) (entry_path dirpath d_name) with
        | inl e =>
            (inl (mkSystemError "Failure in readlink(): " e), set_errno e p)
        | inr text =>
            match resolve dirpath (substring 0 (PATH_MAX K) text) p with
            | (inl err, p') => (inl err, p')
            | (inr lnk_dst, p') =>
                (inr (if String.eqb target lnk_dst
                      then vec ++ [entry_path dirpath d_name] else vec), p')
            end
        end
      else (inr vec, p)
  end.
Proof.
  unfold scan_entry, bind, lstat, readlink, libc. cbn.
  destruct (k_lstat K (cwd p) (entry_path dirpath d_name)) as [e | m]; cbn;
    [reflexivity |].
  destruct (S_ISLNK m); cbn; [| reflexivity].
  destruct (k_readlink K (cwd p) (entry_path dirpath d_name)) as [e | text];
    cbn; [reflexivity |].
  destruct (resolve dirpath (substring 0 (PATH_MAX K) text) p)
    as [[err | dst] p1]; [reflexivity |].
  unfold ret. destruct (String.eqb target dst); reflexivity.
Qed.

Lemma getLinksTo_run (target_rel dirpath : string) (p : Proc) :
  links target_rel dirpath p =
  match k_opendir K (cwd p) dirpath with
  | inl e =>
      (inl (mkSystemError "Unable to open directory: " e), set_errno e p)
  | inr dir =>
      match k_realpath K (cwd p) target_rel with
      | inl e =>
          (inl (mkSystemError "Failure in realpath(): " e), set_errno e p)
      | inr target => entries dirpath target dir [] p
      end
  end.
Proof.
  unfold getLinksTo, bind, opendir, realpath, libc, throw_errno.
  destruct (k_opendir K (cwd p) dirpath) as [e | dir]; [reflexivity |].
  destruct (k_realpath K (cwd p) target_rel); reflexivity.
Qed.

(** X1: [getLinksTo] returns a vector exactly when the directory opens,
    the target resolves and no call made for any entry fails; the vector
    then holds the paths of the entries that link to the target, in the
    order [readdir] listed them, and the working directory is the one
    the function was called in. *)
Theorem getLinksTo_returns_in_listing_order (target_rel dirpath : string)
  (vec : list string) (p : Proc) :
  (fst (links target_rel dirpath p) = inr vec <->
   exists dir target,
     k_opendir K (cwd p) dirpath = inr dir /\
     k_realpath K (cwd p) target_rel = inr target /\
     forallb (entry_valid K (cwd p) dirpath) dir = true /\
     vec = map (entry_path dirpath)
               (filter (links_to K (cwd p) dirpath target) dir)) /\
  (fst (links target_rel dirpath p) = inr vec ->
   cwd (snd (links target_rel dirpath p)) = cwd p).
Proof.
  destruct (links target_rel dirpath p) as [r p'] eqn:E. cbn [fst snd].
  split; [split |].
  - intros ->. apply getLinksTo_ok in E
      as (dir & target & Hd & Ht & Hv & Hvec & _).
    exists dir, target. auto.
  - intros (dir & target & Hd & Ht & Hv & Hvec).
    assert (E' : links target_rel dirpath p = (inr vec, p))
      by (apply getLinksTo_ok; exists dir, target; auto).
    rewrite E in E'. inversion E'. reflexivity.
  - intros ->. apply getLinksTo_ok in E as (_ & _ & _ & _ & _ & _ & ->).
    reflexivity.
Qed.

Lemma scan_entry_readlink_fails (dirpath target x : string)
  (vec : list string) (st_mode e : Z) (p : Proc) :
  k_lstat K (cwd p) (entry_path dirpath x) = inr st_mode ->
  S_ISLNK st_mode = true ->
  k_readlink K (cwd p) (entry_path dirpath x) = inl e ->
  entry dirpath target x vec p =
  (inl (mkSystemError "Failure in readlink(): " e), set_errno e p).
Proof.
  intros Hl Hm Hr. unfold scan_entry, bind, lstat, readlink, libc. cbn.
  rewrite Hl. cbn. rewrite Hm, Hr. reflexivity.
Qed.

(** X2: a symbolic link whose text cannot be read ends the scan: when
    the entries listed before it are processed without a failure, the
    function throws [SystemError("Failure in readlink(): ", errno)] with
    the error number of the failed [readlink]. *)
Theorem readlink_failure_aborts_scan (target_rel dirpath target x : string)
  (pre post : list string) (st_mode e : Z) (p : Proc) :
  k_opendir K (cwd p) dirpath = inr (pre ++ x :: post) ->
  k_realpath K (cwd p) target_rel = inr target ->
  forallb (entry_valid K (cwd p) dirpath) pre = true ->
  k_lstat K (cwd p) (entry_path dirpath x) = inr st_mode ->
  S_ISLNK st_mode = true ->
  k_readlink K (cwd p) (entry_path dirpath x) = inl e ->
  links target_rel dirpath p =
  (inl (mkSystemError "Failure in readlink(): " e), set_errno e p).
Proof.
  intros Hd Ht Hpre Hl Hm Hr.
  unfold getLinksTo, bind at 1, opendir, libc. rewrite Hd.
  unfold bind at 1, realpath, libc. rewrite Ht.
  rewrite scan_entries_app by assumption.
  cbn [scan_entries]. unfold bind.
  rewrite (scan_entry_readlink_fails _ _ _ _ _ _ _ Hl Hm Hr). reflexivity.
Qed.

Lemma plain_entry_valid (c dirpath target d_name : string) :
  plain_entry K c dirpath d_name = true ->
  entry_valid K c dirpath d_name = true /\
  links_to K c dirpath target d_name = false.
Proof.
  unfold plain_entry, entry_valid, links_to.
  destruct (k_lstat K c (entry_path dirpath d_name)) as [e | m];
    [discriminate |].
  destruct (S_ISLNK m); [discriminate | auto].
Qed.

Lemma plain_listing (c dirpath target : string) (dir : list string) :
  forallb (plain_entry K c dirpath) dir = true ->
  forallb (entry_valid K c dirpath) dir = true /\
  matches K c dirpath target dir = [].
Proof.
  induction dir as [| n dir IH]; cbn [forallb]; [auto |].
  intros H. apply andb_true_iff in H as [Hn Hdir].
  destruct (plain_entry_valid c dirpath target n Hn) as [Hv Hl].
  destruct (IH Hdir) as [IHv IHm].
  rewrite matches_cons, Hv, Hl, IHv, IHm. auto.
Qed.

(** X3: a directory in which [lstat] reports no entry as a symbolic link
    (an empty listing included) gives the empty vector as soon as it opens
    and the target resolves, and the working directory is never left:
    nothing else is asked of the file system, so this holds even for a
    directory that cannot be entered. *)
Theorem no_symlink_no_match (target_rel dirpath target : string)
  (dir : list string) (p : Proc) :
  k_opendir K (cwd p) dirpath = inr dir ->
  k_realpath K (cwd p) target_rel = inr target ->
  forallb (plain_entry K (cwd p) dirpath) dir = true ->
  fst (links target_rel dirpath p) = inr [] /\
  cwd (snd (links target_rel dirpath p)) = cwd p.
Proof.
  intros Hd Ht Hplain.
  destruct (plain_listing (cwd p) dirpath target dir Hplain) as [Hv Hm].
  assert (E : links target_rel dirpath p = (inr [], p))
    by (apply getLinksTo_ok; exists dir, target; auto).
  rewrite E. auto.
Qed.

(** *** Exceptions and [errno] *)

Definition reported (err : SystemError) (p' : Proc) : Prop :=
  errnum err = errno p' /\ In (what_arg err) (messages msg_chdir msg_popd).

Lemma resolve_link_reported (dirpath lnk_rel : string) (p p' : Proc)
  (err : SystemError) :
  resolve dirpath lnk_rel p = (inl err, p') -> reported err p'.
Proof.
  rewrite resolve_link_run. unfold reported, messages.
  destruct (k_chdir K (cwd p) dirpath) as [e | d].
  { intros H; inversion H; subst; cbn; tauto. }
  destruct (k_fchdir K (cwd p)) as [e' | []].
  { intros H; inversion H; subst; cbn; tauto. }
  destruct (k_realpath K d lnk_rel) as [e | dst];
    intros H; inversion H; subst; cbn; tauto.
Qed.

Lemma scan_entry_reported (dirpath target d_name : string)
  (vec : list string) (p p' : Proc) (err : SystemError) :
  entry dirpath target d_name vec p = (inl err, p') -> reported err p'.
Proof.
  unfold scan_entry, bind at 1 2, lstat, readlink, libc. cbn.
  destruct (k_lstat K (cwd p) (entry_path dirpath d_name)) as [e | m]; cbn.
  { intros H; inversion H; subst; unfold reported, messages; cbn; tauto. }
  destruct (S_ISLNK m); cbn; [| unfold ret; discriminate].
  destruct (k_readlink K (cwd p) (entry_path dirpath d_name)) as [e | text];
    cbn.
  { intros H; inversion H; subst; unfold reported, messages; cbn; tauto. }
  unfold bind.
  destruct (resolve dirpath (substring 0 (PATH_MAX K) text) p)
    as [[err' | dst] p1] eqn:E.
  - intros H; inversion H; subst. eapply resolve_link_reported; eassumption.
  - unfold ret. destruct (String.eqb target dst); discriminate.
Qed.

Lemma scan_entries_reported (dirpath target : string) (dir : list string) :
  forall (vec : list string) (p p' : Proc) (err : SystemError),
    entries dirpath target dir vec p = (inl err, p') -> reported err p'.
Proof.
  induction dir as [| d_name dir IH]; intros vec p p' err.
  - cbn. unfold ret. discriminate.
  - cbn [scan_entries]. unfold bind.
    destruct (entry dirpath target d_name vec p) as [[err' | v1] p1] eqn:E.
    + intros H; inversion H; subst.
      eapply scan_entry_reported; eassumption.
    + apply IH.
Qed.

Lemma getLinksTo_reported (target_rel dirpath : string) (p p' : Proc)
  (err : SystemError) :
  links target_rel dirpath p = (inl err, p') -> reported err p'.
Proof.
  rewrite getLinksTo_run.
  destruct (k_opendir K (cwd p) dirpath) as [e | dir].
  { intros H; inversion H; subst; unfold reported, messages; cbn; tauto. }
  destruct (k_realpath K (cwd p) target_rel) as [e | target].
  { intros H; inversion H; subst; unfold reported, messages; cbn; tauto. }
  apply scan_entries_reported.
Qed.

(** X4: whenever [getLinksTo] throws, the exception carries the value
    [errno] has in the process at that moment, and its message is one of
    the four of the function or one of the two of [ChDir]. *)
Theorem exception_carries_errno (target_rel dirpath : string) (p p' : Proc)
  (err : SystemError) :
  links target_rel dirpath p = (inl err, p') ->
  errnum err = errno p' /\
  In (what_arg err) (messages msg_chdir msg_popd).
Proof.
  intros H. exact (getLinksTo_reported target_rel dirpath p p' err H).
Qed.

(** How a computation ends depends on the working directory alone, not on
    the [errno] it starts with: the result is the same, and so is the
    final process after an exception; after a normal return the process
    is the one it started with. *)
Definition errno_blind {A : Type} (m : M A) : Prop :=
  forall (c : string) (e1 e2 : Z),
    m (mkProc c e2) =
    (fst (m (mkProc c e1)),
     match fst (m (mkProc c e1)) with
     | inr _ => mkProc c e2
     | inl _ => snd (m (mkProc c e1))
     end).

Lemma resolve_link_errno_blind (dirpath lnk_rel : string) :
  errno_blind (resolve dirpath lnk_rel).
Proof.
  intros c e1 e2. rewrite !resolve_link_run. cbn [cwd].
  destruct (k_chdir K c dirpath) as [e | d]; [reflexivity |].
  destruct (k_fchdir K c) as [e' | []]; [reflexivity |].
  destruct (k_realpath K d lnk_rel); reflexivity.
Qed.

Lemma scan_entry_errno_blind (dirpath target d_name : string)
  (vec : list string) :
  errno_blind (entry dirpath target d_name vec).
Proof.
  intros c e1 e2. rewrite !scan_entry_run. cbn [cwd].
  destruct (k_lstat K c (entry_path dirpath d_name)) as [e | m];
    [reflexivity |].
  destruct (S_ISLNK m); [| reflexivity].
  destruct (k_readlink K c (entry_path dirpath d_name)) as [e | text];
    [reflexivity |].
  rewrite (resolve_link_errno_blind dirpath (substring 0 (PATH_MAX K) text)
             c e1 e2).
  destruct (resolve dirpath (substring 0 (PATH_MAX K) text) (mkProc c e1))
    as [[err | dst] p1]; reflexivity.
Qed.

Lemma scan_entries_errno_blind (dirpath target : string) (dir : list string) :
  forall vec : list string, errno_blind (entries dirpath target dir vec).
Proof.
  induction dir as [| d_name dir IH]; intros vec c e1 e2; [reflexivity |].
  cbn [scan_entries]. unfold bind.
  rewrite (scan_entry_errno_blind dirpath target d_name vec c e1 e2).
  destruct (entry dirpath target d_name vec (mkProc c e1))
    as [[err | v1] p1] eqn:E; cbn [fst snd]; [reflexivity |].
  apply scan_entry_ok in E as (_ & _ & ->).
  apply IH.
Qed.

Lemma getLinksTo_errno_blind (target_rel dirpath : string) :
  errno_blind (links target_rel dirpath).
Proof.
  intros c e1 e2. rewrite !getLinksTo_run. cbn [cwd].
  destruct (k_opendir K c dirpath) as [e | dir]; [reflexivity |].
  destruct (k_realpath K c target_rel) as [e | target]; [reflexivity |].
  apply scan_entries_errno_blind.
Qed.

(** X5: the outcome of [getLinksTo] never depends on the [errno] the
    process has when the function is called: from the same working
    directory it returns the same vector or throws the same exception,
    with the same error number.  An error number left by an earlier call
    is never reported. *)
Theorem stale_errno_never_reported (target_rel dirpath c : string)
  (e1 e2 : Z) :
  fst (getLinksTo K msg_chdir msg_popd target_rel dirpath (mkProc c e1)) =
  fst (getLinksTo K msg_chdir msg_popd target_rel dirpath (mkProc c e2)).
Proof.
  rewrite (getLinksTo_errno_blind target_rel dirpath c e1 e2). reflexivity.
Qed.

(** X6: the scan stops at the first entry for which a call fails.  When
    the entries listed before [x] are processed without a failure and one
    of the calls made for [x] fails, the function ends as the turn of the
    loop for [x] ends, whatever is listed after [x]. *)
Theorem scan_stops_at_first_failure (target_rel dirpath target x : string)
  (pre post : list string) (p : Proc) :
  k_opendir K (cwd p) dirpath = inr (pre ++ x :: post) ->
  k_realpath K (cwd p) target_rel = inr target ->
  forallb (entry_valid K (cwd p) dirpath) pre = true ->
  entry_valid K (cwd p) dirpath x = false ->
  links target_rel dirpath p =
  entry dirpath target x (matches K (cwd p) dirpath target pre) p /\
  exists err p', links target_rel dirpath p = (inl err, p').
Proof.
  intros Hd Ht Hpre Hx.
  assert (E : links target_rel dirpath p =
              entry dirpath target x (matches K (cwd p) dirpath target pre) p).
  { unfold getLinksTo, bind at 1, opendir, libc. rewrite Hd.
    unfold bind at 1, realpath, libc. rewrite Ht.
    rewrite scan_entries_app by assumption.
    cbn [scan_entries app]. unfold bind.
    destruct (entry dirpath target x (matches K (cwd p) dirpath target pre) p)
      as [[err | v] p1] eqn:E; [reflexivity |].
    apply scan_entry_ok in E as (Hv & _). congruence. }
  split; [exact E |].
  rewrite E.
  destruct (entry dirpath target x (matches K (cwd p) dirpath target pre) p)
    as [[err | v] p1] eqn:E'; [exists err, p1; reflexivity |].
  apply scan_entry_ok in E' as (Hv & _). congruence.
Qed.

Lemma symlink_to_functional (c dirpath t1 t2 d_name : string) :
  symlink_to K c dirpath t1 d_name ->
  symlink_to K c dirpath t2 d_name ->
  t1 = t2.
Proof.
  intros (m1 & x1 & d1 & _ & _ & Hr1 & Hc1 & Hp1)
         (m2 & x2 & d2 & _ & _ & Hr2 & Hc2 & Hp2).
  rewrite Hr1 in Hr2. inversion Hr2; subst x2.
  rewrite Hc1 in Hc2. inversion Hc2; subst d2.
  rewrite Hp1 in Hp2. inversion Hp2. reflexivity.
Qed.

(** X7: a link is reported for one file only.  When two scans of the
    same directory from the same working directory both return, for
    targets that resolve to different canonical paths, no path is in both
    vectors. *)
Theorem targets_have_disjoint_links (t1 t2 dirpath path : string)
  (v1 v2 : list string) (p p1 p2 : Proc) :
  links t1 dirpath p = (inr v1, p1) ->
  links t2 dirpath p = (inr v2, p2) ->
  k_realpath K (cwd p) t1 <> k_realpath K (cwd p) t2 ->
  In path v1 ->
  ~ In path v2.
Proof.
  intros H1 H2 Hne Hin1 Hin2.
  apply getLinksTo_ok in H1 as (dir1 & tg1 & _ & Ht1 & _ & -> & _).
  apply getLinksTo_ok in H2 as (dir2 & tg2 & _ & Ht2 & _ & -> & _).
  apply matches_In in Hin1 as (n1 & _ & -> & Hs1).
  apply matches_In in Hin2 as (n2 & _ & Heq & Hs2).
  apply entry_path_inj in Heq. subst n2.
  apply Hne. rewrite Ht1, Ht2.
  rewrite (symlink_to_functional _ _ _ _ _ Hs1 Hs2). reflexivity.
Qed.

End ScanMore.

(** ** The callers *)

Section ReportMore.

Variable K : Kernel.
Variable D : Devices.
Variables msg_chdir msg_popd : string.
Variable pathBasename : string -> string.
Variable what : SystemError -> string.

Local Abbreviation links := (getLinksTo K msg_chdir msg_popd).
Local Abbreviation print_links :=
  (printLinks K msg_chdir msg_popd pathBasename what).
Local Abbreviation dev :=
  (device K D msg_chdir msg_popd pathBasename what).
Local Abbreviation devs :=
  (devices K D msg_chdir msg_popd pathBasename what).
Local Abbreviation run_main :=
  (main K D msg_chdir msg_popd pathBasename what).

(** X8: when the directory opens, the target resolves and no call made
    for an entry fails, [printLinks] writes one line per entry that links
    to the target, in the order of the listing, each made of the base
    name of the directory and the base name of the link, and returns in
    the working directory it was called in. *)
Theorem printLinks_lists_matches (path dir target : string)
  (listing : list string) (p : Proc) :
  k_opendir K (cwd p) dir = inr listing ->
  k_realpath K (cwd p) path = inr target ->
  forallb (entry_valid K (cwd p) dir) listing = true ->
  fst (print_links path dir p) =
  print_each pathBasename (pathBasename dir)
    (matches K (cwd p) dir target listing) /\
  cwd (snd (print_links path dir p)) = cwd p.
Proof.
  intros Hd Ht Hv. unfold printLinks.
  assert (E : links path dir p
              = (inr (matches K (cwd p) dir target listing), p)).
  { apply getLinksTo_ok. exists listing, target. auto. }
  rewrite E. auto.
Qed.



(** *** The entries [main] looks at *)

Lemma event_head (s : string) :
  String.eqb (substring 0 5 s) "event" = prefix "event" s.
Proof.
  assert (G : forall t s : string,
             String.eqb (substring 0 (String.length t) s) t = prefix t s).
  { clear s. induction t as [| a t IH]; intros [| b s]; cbn;
      try reflexivity.
    destruct (ascii_dec a b) as [<- | Hne].
    - rewrite Ascii.eqb_refl. apply IH.
    - destruct (Ascii.eqb_spec b a) as [-> | _];
        [contradiction Hne; reflexivity | reflexivity]. }
  exact (G "event" s).
Qed.

Lemma device_not_event (filename : string) (p : Proc) :
  prefix "event" filename = false ->
  dev filename p = (EmptyString, p).
Proof.
  intros H. unfold device, substr. cbn [Nat.ltb Nat.leb].
  rewrite event_head, H. reflexivity.
Qed.

(** X11: [main] reports an entry of [/dev/input] only if its name begins
    with [event].  For any other name, shorter than five bytes or not, the
    turn of the loop writes nothing, opens nothing and leaves the process
    as it was ([substr] never throws there), so the loop runs as it would
    on the listing with these names taken out. *)
Theorem main_ignores_other_entries (dir : list string) (p : Proc) :
  (forall filename,
      prefix "event" filename = false ->
      dev filename p = (EmptyString, p)) /\
  devs dir p = devs (filter (prefix "event") dir) p.
Proof.
  split; [intros filename; apply device_not_event |].
  revert p. induction dir as [| filename dir IH]; intros p; [reflexivity |].
  cbn [devices filter].
  destruct (prefix "event" filename) eqn:E.
  - cbn [devices]. destruct (dev filename p) as [o p1].
    rewrite IH. reflexivity.
  - rewrite (device_not_event filename p E), IH.
    destruct (devs (filter (prefix "event") dir) p) as [os p2]. reflexivity.
Qed.

Lemma parse_options_None (cs : list Z) :
  parse_options cs = None <-> ~ In (chr "h") cs /\ ~ In (chr "v") cs.
Proof.
  induction cs as [| c cs IH]; cbn [parse_options In]; [tauto |].
  destruct (Z.eqb_spec c (chr "h")) as [-> | Hh].
  { split; [discriminate | intros [H _]; contradiction H; auto]. }
  destruct (Z.eqb_spec c (chr "v")) as [-> | Hv].
  { split; [discriminate | intros [_ H]; contradiction H; auto]. }
  rewrite IH. intuition congruence.
Qed.

Lemma parse_options_skip (pre rest : list Z) :
  ~ In (chr "h") pre -> ~ In (chr "v") pre ->
  parse_options (pre ++ rest) = parse_options rest.
Proof.
  induction pre as [| c pre IH]; cbn [app parse_options In]; intros Hh Hv;
    [reflexivity |].
  destruct (Z.eqb_spec c (chr "h")) as [-> | _]; [contradiction Hh; auto |].
  destruct (Z.eqb_spec c (chr "v")) as [-> | _]; [contradiction Hv; auto |].
  apply IH; tauto.
Qed.

(** X12: what [main] does is decided by the values [getopt] returns.
    At the first ['h'] or ['v'] among them, [main] writes the help text,
    respectively the version text, and returns [EXIT_SUCCESS]; the values
    before it that are neither are passed over.  When neither is
    returned, [main] opens [/dev/input]: if that fails it writes
    "Unable to open /dev/input directory" and returns [EXIT_FAILURE],
    and otherwise it writes what its loop over the listing writes and
    returns 0. *)
Theorem help_or_version_only (argv : list string) (p : Proc) :
  (forall pre c post,
      k_getopt D argv = pre ++ c :: post ->
      ~ In (chr "h") pre -> ~ In (chr "v") pre ->
      (c = chr "h" -> fst (run_main argv p) = (EXIT_SUCCESS, help_text)) /\
      (c = chr "v" -> fst (run_main argv p) = (EXIT_SUCCESS, version_text))) /\
  (~ In (chr "h") (k_getopt D argv) /\ ~ In (chr "v") (k_getopt D argv) ->
   fst (run_main argv p) =
   match k_opendir K (cwd p) devdir with
   | inl _ =>
       (EXIT_FAILURE, ("Unable to open /dev/input directory" ++ endl)%string)
   | inr dir => (0%Z, fst (devs dir p))
   end).
Proof.
  split.
  - intros pre c post Hopts Hh Hv. unfold main.
    rewrite Hopts, (parse_options_skip pre (c :: post) Hh Hv).
    split; intros ->; reflexivity.
  - intros Hno. apply parse_options_None in Hno. unfold main. rewrite Hno.
    destruct (k_opendir K (cwd p) devdir) as [e | dir]; [reflexivity |].
    destruct (devs dir p) as [out p1]. reflexivity.
Qed.

End ReportMore.

(** ** The further statements at the examples *)

Lemma readlink_failure_aborts_scan_witness :
  getLinksTo unreadable_kernel "chdir" "popd" "/dev/input/event3" by_id
    root_proc
  = (inl (mkSystemError "Failure in readlink(): " ENOENT),
     set_errno ENOENT root_proc).
Proof.
  exact (readlink_failure_aborts_scan unreadable_kernel "chdir" "popd"
           "/dev/input/event3" by_id "/dev/input/event3" "usb-mouse"
           [ "."; ".."; "usb-kbd" ] [] 0xA1FF%Z ENOENT root_proc
           eq_refl eq_refl eq_refl eq_refl eq_refl eq_refl).
Defined.

Lemma no_symlink_no_match_witness :
  fst (getLinksTo devdir_kernel "chdir" "popd" "/dev/input/event3"
         "/dev/input" root_proc) = inr [] /\
  cwd (snd (getLinksTo devdir_kernel "chdir" "popd" "/dev/input/event3"
              "/dev/input" root_proc)) = cwd root_proc.
Proof.
  exact (no_symlink_no_match devdir_kernel "chdir" "popd"
           "/dev/input/event3" "/dev/input" "/dev/input/event3"
           [ "."; ".."; "by-id"; "event3"; "event4" ] root_proc
           eq_refl eq_refl eq_refl).
Defined.

Lemma stale_run :
  getLinksTo stale_kernel "chdir" "popd" "/dev/input/event3" by_id root_proc
  = (inl (mkSystemError "Failure in realpath(): " ENOENT),
     mkProc "/root" ENOENT).
Proof. vm_compute. reflexivity. Defined.

Lemma exception_carries_errno_witness :
  errnum (mkSystemError "Failure in realpath(): " ENOENT)
  = errno (mkProc "/root" ENOENT) /\
  In (what_arg (mkSystemError "Failure in realpath(): " ENOENT))
     (messages "chdir" "popd").
Proof.
  exact (exception_carries_errno stale_kernel "chdir" "popd"
           "/dev/input/event3" by_id root_proc (mkProc "/root" ENOENT)
           (mkSystemError "Failure in realpath(): " ENOENT) stale_run).
Defined.

Lemma scan_stops_at_first_failure_witness :
  getLinksTo stale_kernel "chdir" "popd" "/dev/input/event3" by_id root_proc
  = scan_entry stale_kernel "chdir" "popd" by_id "/dev/input/event3" "stale"
      (matches stale_kernel (cwd root_proc) by_id "/dev/input/event3"
         [ "."; ".."; "usb-kbd" ]) root_proc /\
  exists err p',
    getLinksTo stale_kernel "chdir" "popd" "/dev/input/event3" by_id root_proc
    = (inl err, p').
Proof.
  exact (scan_stops_at_first_failure stale_kernel "chdir" "popd"
           "/dev/input/event3" by_id "/dev/input/event3" "stale"
           [ "."; ".."; "usb-kbd" ] [ "usb-mouse" ] root_proc
           eq_refl eq_refl eq_refl eq_refl).
Defined.

Lemma kbd_run :
  getLinksTo input_kernel "chdir" "popd" "/dev/input/event3" by_id root_proc
  = (inr [ "/dev/input/by-id/usb-kbd" ], root_proc).
Proof. vm_compute. reflexivity. Defined.

Lemma mouse_run :
  getLinksTo input_kernel "chdir" "popd" "/dev/input/event4" by_id root_proc
  = (inr [ "/dev/input/by-id/usb-mouse" ], root_proc).
Proof. vm_compute. reflexivity. Defined.

Lemma targets_have_disjoint_links_witness :
  ~ In "/dev/input/by-id/usb-kbd" [ "/dev/input/by-id/usb-mouse" ].
Proof.
  apply (targets_have_disjoint_links input_kernel "chdir" "popd"
           "/dev/input/event3" "/dev/input/event4" by_id
           "/dev/input/by-id/usb-kbd" [ "/dev/input/by-id/usb-kbd" ]
           [ "/dev/input/by-id/usb-mouse" ] root_proc root_proc root_proc
           kbd_run mouse_run).
  - vm_compute. discriminate.
  - left. reflexivity.
Defined.

Lemma printLinks_lists_matches_witness :
  (fst (printLinks input_kernel "chdir" "popd" last_part message_only
          "/dev/input/event3" by_id root_proc)
   = print_each last_part (last_part by_id)
       (matches input_kernel (cwd root_proc) by_id "/dev/input/event3"
          [ "."; ".."; "usb-kbd"; "usb-mouse" ]) /\
   cwd (snd (printLinks input_kernel "chdir" "popd" last_part message_only
               "/dev/input/event3" by_id root_proc)) = cwd root_proc) /\
  print_each last_part (last_part by_id)
    (matches input_kernel (cwd root_proc) by_id "/dev/input/event3"
       [ "."; ".."; "usb-kbd"; "usb-mouse" ])
  = ("    by-id: usb-kbd" ++ endl)%string.
Proof.
  split.
  - exact (printLinks_lists_matches input_kernel "chdir" "popd" last_part
             message_only "/dev/input/event3" by_id "/dev/input/event3"
             [ "."; ".."; "usb-kbd"; "usb-mouse" ] root_proc
             eq_refl eq_refl eq_refl).
  - vm_compute. reflexivity.
Defined.


Lemma help_or_version_only_witness :
  fst (main input_kernel input_devices "chdir" "popd" last_part message_only
         [ "lsinput"; "-x"; "-v"; "-h" ] root_proc)
  = (EXIT_SUCCESS, version_text) /\
  fst (main input_kernel input_devices "chdir" "popd" last_part message_only
         [ "lsinput"; "-x" ] root_proc)
  = match k_opendir input_kernel (cwd root_proc) devdir with
    | inl _ =>
        (EXIT_FAILURE, ("Unable to open /dev/input directory" ++ endl)%string)
    | inr dir =>
        (0%Z, fst (devices input_kernel input_devices "chdir" "popd" last_part
                     message_only dir root_proc))
    end.
Proof.
  split.
  - apply (proj1 (help_or_version_only input_kernel input_devices "chdir"
                    "popd" last_part message_only
                    [ "lsinput"; "-x"; "-v"; "-h" ] root_proc)
             [ chr "?" ] (chr "v") [ chr "h" ]).
    + reflexivity.
    + vm_compute. intuition discriminate.
    + vm_compute. intuition discriminate.
    + reflexivity.
  - apply (proj2 (help_or_version_only input_kernel input_devices "chdir"
                    "popd" last_part message_only [ "lsinput"; "-x" ]
                    root_proc)).
    split; vm_compute; intuition discriminate.
Defined.
